(** * A shallow embedding of mxnet's [include/mxnet/io.h]

    The header declares the data-loading roles of mxnet: the iterator
    interface [IIterator], the records [DataInst] and [DataBatch], the
    random-access [Dataset] and the collation role [BatchifyFunction] with
    its protected [SanityCheck].  Code that lives in the header is embedded
    from it; behaviour that the header only declares (pure virtual
    methods whose implementations are elsewhere in mxnet) is modelled from
    the specification and marked as such. *)

From Stdlib Require Import String ZArith Lia Bool Arith List.
Import ListNotations.
Open Scope nat_scope.

(** ** Data model *)

(** The tensor type [NDArray] is opaque to this header; the model keeps
    its shape and a flat payload. *)
Record NDArray := mkNDArray { shape : list nat; payload : list Z }.

(** [struct DataInst]: one sample. *)
Record DataInst := mkDataInst {
  inst_index : N;                 (* unsigned index, a 32-bit value held as N:
                                     nothing here computes on it *)
  inst_data : list NDArray;       (* std::vector<TBlob> data *)
  inst_extra_data : string
}.

(** [struct DataBatch]: [num_batch_padd] is a C++ [int], held as [Z]
    without wrap-around: the code only stores it. *)
Record DataBatch := mkDataBatch {
  data : list NDArray;            (* std::vector<NDArray> data *)
  index : list N;                 (* std::vector<uint64_t> index *)
  extra_data : string;
  num_batch_padd : Z              (* int num_batch_padd *)
}.

(** The failures of this layer.  A failed [CHECK_GT]/[CHECK_EQ] in
    [SanityCheck] aborts the call; the model names the two checks. *)
Inductive io_error :=
| EmptyBatch                      (* CHECK_GT(bs, 0) *)
| ArityMismatch (i : nat)         (* CHECK_EQ(inputs[i].size(), out_size) *)
| IndexOutOfRange
| FieldOutOfRange
| InvalidState
| UpstreamError (msg : string).

Inductive result (A : Type) :=
| Ok (a : A)
| Err (e : io_error).
Arguments Ok {A} a.
Arguments Err {A} e.

Definition bind {A B} (r : result A) (k : A -> result B) : result B :=
  match r with
  | Ok a => k a
  | Err e => Err e
  end.

Notation "x <- r ;; k" := (bind r (fun x => k))
  (at level 61, r at next level, right associativity).

(** ** BatchifyFunction::SanityCheck *)

(** The loop [for (size_t i = 1; i < bs; ++i) CHECK_EQ(inputs[i].size(),
    out_size)]: [i] is the position of the head of [rest] in [inputs]. *)
Fixpoint check_sizes (out_size i : nat) (rest : list (list NDArray))
  : result nat :=
  match rest with
  | [] => Ok out_size
  | x :: rest' =>
      if length x =? out_size then check_sizes out_size (S i) rest'
      else Err (ArityMismatch i)
  end.

Definition SanityCheck (inputs : list (list NDArray)) : result nat :=
  match inputs with
  | [] => Err EmptyBatch                     (* CHECK_GT(bs, 0) *)
  | first :: rest => check_sizes (length first) 1 rest
  end.

(** Modelled from the spec: [BatchifyFunction::Batchify] is pure virtual
    in the header and its implementations are not part of this source.
    The spec's design rule is that validation runs before any stacking
    logic; a batchifier is therefore [SanityCheck] followed by an
    arbitrary stacking [body] that receives the validated field count. *)
Definition Batchify
  (body : nat -> list (list NDArray) -> result (list NDArray))
  (inputs : list (list NDArray)) : result (list NDArray) :=
  out_size <- SanityCheck inputs ;; body out_size inputs.

(** ** IIterator<DType> *)

(** An iterator object: the public base-class member [data_names] next to
    the state [impl] of the subclass. *)
Record iter_obj (S : Type) := mkIterObj {
  data_names : list string;
  impl : S
}.
Arguments mkIterObj {S} _ _.
Arguments data_names {S} _.
Arguments impl {S} _.

(** The virtual methods of [IIterator] over the state [S] of a concrete
    iterator.  [GetLenHint] is virtual with a default body; a subclass
    that overrides it supplies [len_hint_override], which may read the
    whole object, [data_names] included. *)
Record IIterator (S DType : Type) := mkIIterator {
  Init : list (string * string) -> S -> S;
  BeforeFirst : S -> S;
  Next : S -> S * bool;
  Value : S -> DType;
  len_hint_override : option (iter_obj S -> Z)
}.
Arguments Init {S DType} _ _ _.
Arguments BeforeFirst {S DType} _ _.
Arguments Next {S DType} _ _.
Arguments Value {S DType} _ _.
Arguments len_hint_override {S DType} _.

(** [SetDataName]: [data_names.push_back(data_name)]. *)
Definition SetDataName {S} (data_name : string) (o : iter_obj S) : iter_obj S :=
  mkIterObj (data_names o ++ [data_name]) (impl o).

(** [GetLenHint]: the default body returns [-1]. *)
Definition GetLenHint {S DType} (it : IIterator S DType) (o : iter_obj S) : Z :=
  match len_hint_override it with
  | None => (-1)%Z
  | Some f => f o
  end.

(** ** StreamingIterator *)

(** Modelled from the spec: the concrete [IIterator] subclasses are not
    part of this source.  The model follows the spec's state machine
    [Uninitialized -> Ready -> Exhausted] with [BeforeFirst] back to the
    start of the epoch.  An iterator reads a deterministic source [pull]:
    [pull k] is the [k]-th batch of the epoch, [None] past its end. *)
Module Streaming.

Inductive phase :=
| Uninitialized
| Ready (pos : nat) (cur : option DataBatch)
| Exhausted.

Section Source.
Variable pull : nat -> option DataBatch.

Definition init (_ : list (string * string)) (_ : phase) : phase := Ready 0 None.

Definition before_first (p : phase) : result phase :=
  match p with
  | Uninitialized => Err InvalidState
  | Ready _ _ | Exhausted => Ok (Ready 0 None)
  end.

Definition next (p : phase) : result (phase * bool) :=
  match p with
  | Uninitialized => Err InvalidState
  | Ready pos _ =>
      match pull pos with
      | Some b => Ok (Ready (S pos) (Some b), true)
      | None => Ok (Exhausted, false)
      end
  | Exhausted => Ok (Exhausted, false)
  end.

Definition value (p : phase) : result DataBatch :=
  match p with
  | Ready _ (Some b) => Ok b
  | _ => Err InvalidState
  end.

(** [n] calls of [next] in a row, with the answers they return. *)
Fixpoint next_n (n : nat) (p : phase) : result (list bool * phase) :=
  match n with
  | 0 => Ok ([], p)
  | S n' =>
      r <- next p ;;
      let '(p', b) := r in
      r' <- next_n n' p' ;;
      let '(bs, p'') := r' in
      Ok (b :: bs, p'')
  end.

End Source.
End Streaming.

(** A source of three batches. *)
Definition three_batches (k : nat) : option DataBatch :=
  if k <? 3 then Some (mkDataBatch [] [N.of_nat k] EmptyString 0) else None.

(** ** PrefetcherIter *)

(** Modelled from the spec: the prefetching wrapper is not part of this
    source.  The spec's design is one producer and one consumer connected
    by a queue of capacity [depth].  The producer repeatedly calls the
    inner iterator's [next]: on a batch it pushes it when the queue has
    room (otherwise it waits); at the end of the epoch it raises the
    end-of-epoch flag and stops; when the inner [next] raises an error the
    error is captured and the producer stops.  One consumer pull is a
    [next()] followed by [value()]: a captured error is re-raised first,
    the queued batches are dropped and the wrapper becomes [Exhausted];
    otherwise the pull takes the head of the queue, or answers [false] and
    becomes [Exhausted] once the queue is empty and the end flag is set,
    or waits.  [before_first] stops the producer, drains the queue, resets
    the inner iterator to the start of its epoch ([source]; the inner
    iterator is deterministic across epochs) and restarts the producer; it
    is one atomic operation, so the producer is fully stopped before the
    reset.  [obs] records what the consumer observed.  Producer and
    consumer interleave arbitrarily: [step] is their nondeterministic
    union, and [move] adds the consumer's [before_first]. *)
Module Prefetch.

(** One answer of the inner iterator's [next]/[value]. *)
Inductive item :=
| IBatch (b : DataBatch)
| IError (msg : string).

(** What one consumer call observes. *)
Inductive event :=
| Got (b : DataBatch)
| Raised (msg : string)
| Done
| Restarted.

Inductive cstate := Running | CExhausted.

Record st := mkSt {
  source : list item;         (* the inner iterator's epoch, from its start *)
  inner : list item;          (* what the inner iterator has still to answer *)
  queue : list DataBatch;     (* the lookahead queue, head first *)
  ended : bool;               (* end-of-epoch flag set by the producer *)
  err : option string;        (* captured error of the inner iterator *)
  stopped : bool;             (* the producer loop has stopped *)
  cons : cstate;              (* the consumer-side state of the wrapper *)
  obs : list event            (* the consumer's observations, oldest first *)
}.

Definition init (items : list item) : st :=
  mkSt items items [] false None false Running [].

Definition producer_step (depth : nat) (s : st) : option st :=
  if stopped s then None else
  match inner s with
  | [] => Some (mkSt (source s) [] (queue s) true (err s) true (cons s) (obs s))
  | IBatch b :: r =>
      if length (queue s) <? depth
      then Some (mkSt (source s) r (queue s ++ [b]) (ended s) (err s) false
                      (cons s) (obs s))
      else None
  | IError m :: r =>
      Some (mkSt (source s) r (queue s) (ended s) (Some m) true (cons s) (obs s))
  end.

Definition consumer_step (s : st) : option st :=
  match cons s with
  | CExhausted =>
      Some (mkSt (source s) (inner s) (queue s) (ended s) (err s) (stopped s)
                 CExhausted (obs s ++ [Done]))
  | Running =>
      match err s with
      | Some m =>
          Some (mkSt (source s) (inner s) [] (ended s) None (stopped s) CExhausted
                     (obs s ++ [Raised m]))
      | None =>
          match queue s with
          | b :: q =>
              Some (mkSt (source s) (inner s) q (ended s) None (stopped s) Running
                         (obs s ++ [Got b]))
          | [] =>
              if ended s
              then Some (mkSt (source s) (inner s) [] true None (stopped s)
                              CExhausted (obs s ++ [Done]))
              else None
          end
      end
  end.

(** Stop the producer, drain the queue, reset the inner iterator, restart. *)
Definition before_first (s : st) : st :=
  mkSt (source s) (source s) [] false None false Running (obs s ++ [Restarted]).

Definition step (depth : nat) (s s' : st) : Prop :=
  producer_step depth s = Some s' \/ consumer_step s = Some s'.

Definition move (depth : nat) (s s' : st) : Prop :=
  step depth s s' \/ s' = before_first s.

(** Reflexive-transitive closure. *)
Inductive star (R : st -> st -> Prop) : st -> st -> Prop :=
| star_refl s : star R s s
| star_cons s1 s2 s3 : R s1 s2 -> star R s2 s3 -> star R s1 s3.

(** The batches and the errors the consumer has observed. *)
Definition got (o : list event) : list DataBatch :=
  flat_map (fun e => match e with Got b => [b] | _ => [] end) o.


(** The observations of the current epoch: those after the last restart. *)
Definition epoch_of (o : list event) : list event :=
  fold_left (fun acc e => match e with Restarted => [] | _ => acc ++ [e] end) o [].

(** Work left in the epoch while the consumer is running: every step taken
    from a running state lowers it. *)
Definition measure (s : st) : nat :=
  2 * length (inner s) + length (queue s) + (if stopped s then 0 else 1) +
  (match err s with Some _ => 1 | None => 0 end) +
  (match cons s with Running => 1 | CExhausted => 0 end).

(** The consumer's calls: a pull ([next()] then [value()]) or a
    [before_first()]. *)
Inductive op := Pull | Reset.

Definition ops_of (o : list event) : list op :=
  map (fun e => match e with Restarted => Reset | _ => Pull end) o.

(** The same calls made directly on the inner iterator, the streaming
    iterator over the batches [bs], after its [Init]. *)
Definition direct_step (bs : list DataBatch)
  (acc : list event * Streaming.phase) (o : op) : list event * Streaming.phase :=
  let '(ev, p) := acc in
  match o with
  | Pull =>
      match Streaming.next (nth_error bs) p with
      | Ok (p', true) =>
          match Streaming.value p' with
          | Ok b => (ev ++ [Got b], p')
          | Err _ => (ev, p')
          end
      | Ok (p', false) => (ev ++ [Done], p')
      | Err _ => (ev, p)
      end
  | Reset =>
      match Streaming.before_first p with
      | Ok p' => (ev ++ [Restarted], p')
      | Err _ => (ev, p)
      end
  end.

Definition replay (bs : list DataBatch) (ops : list op)
  : list event * Streaming.phase :=
  fold_left (direct_step bs) ops ([], Streaming.init [] Streaming.Uninitialized).

Definition last_opt (l : list DataBatch) : option DataBatch :=
  match rev l with [] => None | b :: _ => Some b end.

(** The inner iterator's state matching a wrapper state. *)
Definition phase_of (s : st) : Streaming.phase :=
  match cons s with
  | CExhausted => Streaming.Exhausted
  | Running =>
      Streaming.Ready (length (got (epoch_of (obs s))))
                      (last_opt (got (epoch_of (obs s))))
  end.

(** The invariant of a run over an inner iterator that answers the
    batches [bs] and then ends. *)
Definition inv_ok (bs : list DataBatch) (s : st) : Prop :=
  source s = map IBatch bs /\
  replay bs (ops_of (obs s)) = (obs s, phase_of s) /\
  exists rest,
    inner s = map IBatch rest /\
    got (epoch_of (obs s)) ++ queue s ++ rest = bs /\
    err s = None /\
    stopped s = ended s /\
    (ended s = true -> rest = []) /\
    (cons s = CExhausted -> ended s = true /\ queue s = []).


(** A deterministic schedule, for running the model: [producer_first]
    tries the producer before the consumer at every step. *)
Fixpoint run (producer_first : bool) (depth fuel : nat) (s : st) : st :=
  match fuel with
  | 0 => s
  | S fuel' =>
      let p := producer_step depth s in
      let c := consumer_step s in
      match (if producer_first then match p with Some _ => p | None => c end
             else match c with Some _ => c | None => p end) with
      | Some s' => run producer_first depth fuel' s'
      | None => s
      end
  end.

End Prefetch.

(** Three batches. *)
Definition b0 : DataBatch := mkDataBatch [] [0%N] EmptyString 0.
Definition b1 : DataBatch := mkDataBatch [] [1%N] EmptyString 0.
Definition b2 : DataBatch := mkDataBatch [] [2%N] EmptyString 0.

(** ** Dataset *)

(** Modelled from the spec: [Dataset::GetItem] is pure virtual and no
    dataset is part of this source.  After [Init] a dataset has a fixed
    length ([GetLen], a [uint64_t]), a fixed number of fields
    ([GetOutputSize], an [int]) and a lookup answering a tensor and the
    [is_scalar] flag.  The spec names the two range errors without an
    order; the model checks the field first, then the index. *)
Module DatasetModel.

Record Dataset := mkDataset {
  GetLen : N;
  GetOutputSize : Z;
  lookup : N -> Z -> NDArray * bool
}.

Definition GetItem (ds : Dataset) (idx : N) (n : Z) : result (NDArray * bool) :=
  if negb ((0 <=? n)%Z && (n <? GetOutputSize ds)%Z) then Err FieldOutOfRange
  else if negb (idx <? GetLen ds)%N then Err IndexOutOfRange
  else Ok (lookup ds idx n).

(** The claim as the spec states it, for one dataset. *)
Definition get_contract (ds : Dataset) : Prop :=
  (forall i f, (i < GetLen ds)%N -> (0 <= f < GetOutputSize ds)%Z ->
     exists t, GetItem ds i f = Ok t) /\
  GetItem ds (GetLen ds) 0 = Err IndexOutOfRange /\
  (forall i f, ~ (0 <= f < GetOutputSize ds)%Z -> GetItem ds i f = Err FieldOutOfRange).

Definition scalar_zero : NDArray := mkNDArray [] [0%Z].

(** A dataset of three samples with no fields. *)
Definition no_fields : Dataset := mkDataset 3 0 (fun _ _ => (scalar_zero, true)).

(** A dataset of three samples with an input and a label. *)
Definition pairs : Dataset :=
  mkDataset 3 2 (fun i n => (mkNDArray [] [Z.of_N i; n], true)).

End DatasetModel.

(** ** The batch invariant *)

(** The leading dimension of a tensor, when it has one. *)
Definition leading_dim (t : NDArray) : option nat := hd_error (shape t).

(** The relation the spec states between the members of a [DataBatch];
    the struct itself does not enforce it. *)
Definition batch_ok (b : DataBatch) : Prop :=
  Forall (fun t => leading_dim t = Some (length (index b))) (data b) /\
  (0 <= num_batch_padd b)%Z /\
  (num_batch_padd b <= Z.of_nat (length (index b)))%Z.

(** An iterator whose every [Next] succeeds and whose [Value] is [b]: the
    interface admits it for every [DataBatch] value [b]. *)
Definition const_iter (b : DataBatch) : IIterator nat DataBatch :=
  mkIIterator nat DataBatch (fun _ _ => 0) (fun _ => 0)
    (fun n => (S n, true)) (fun _ => b) None.

(** A batch with two indices, a field of leading dimension three and a
    negative padding count. *)
Definition odd_batch : DataBatch :=
  mkDataBatch [mkNDArray [3] [1; 2; 3]%Z] [0; 1]%N EmptyString (-3).


(** A small concrete iterator counting up to three that keeps the default
    [GetLenHint]. *)
Definition counter_iter : IIterator nat nat :=
  mkIIterator nat nat (fun _ _ => 0) (fun _ => 0)
    (fun n => (S n, Nat.ltb n 3)) (fun n => n) None.

(** * Proofs *)

(** ** Lemmas on SanityCheck *)

Lemma check_sizes_counts_only n i rest rest' :
  map (@length NDArray) rest = map (@length NDArray) rest' ->
  check_sizes n i rest = check_sizes n i rest'.
Proof.
  revert i rest'; induction rest as [|x rest IH]; intros i [|y rest'] H;
    simpl in *; try discriminate; auto.
  injection H as Hxy Hr. rewrite Hxy.
  destruct (length y =? n); auto.
Qed.

Lemma check_sizes_mismatch n i rest x :
  In x rest -> length x <> n ->
  exists j, check_sizes n i rest = Err (ArityMismatch j) /\
            i <= j < i + length rest /\
            length (nth (j - i) rest []) <> n.
Proof.
  revert i; induction rest as [|y rest IH]; intros i Hin Hne; [destruct Hin|].
  simpl. destruct (length y =? n) eqn:E.
  - apply Nat.eqb_eq in E.
    destruct Hin as [->|Hin]; [contradiction|].
    destruct (IH (S i) Hin Hne) as (j & Hj & Hb & Hn).
    exists j. split; [exact Hj|]. split; [lia|].
    replace (j - i) with (S (j - S i)) by lia. exact Hn.
  - apply Nat.eqb_neq in E. exists i. split; [reflexivity|].
    split; [lia|]. rewrite Nat.sub_diag. exact E.
Qed.

Lemma check_sizes_ok n i rest :
  Forall (fun x => length x = n) rest -> check_sizes n i rest = Ok n.
Proof.
  revert i; induction rest as [|y rest IH]; intros i H; [reflexivity|].
  inversion H as [|? ? Hy Hr]; subst. simpl.
  rewrite Nat.eqb_refl. apply IH, Hr.
Qed.

(** C2: [SanityCheck] on an empty batch fails with [EmptyBatch], and so
    does every batchifier, whatever its stacking body: no output is
    produced. *)
Theorem batchify_empty_fails :
  SanityCheck [] = Err EmptyBatch /\
  forall body, Batchify body [] = Err EmptyBatch.
Proof. split; reflexivity. Qed.

(** C1: on a batch of at least one sample in which some sample's field
    count differs from the first sample's, [SanityCheck] fails with
    [ArityMismatch j] ([j] the first mismatching position), before any
    stacking body runs; and the check only depends on the field counts of
    the samples, not on the shapes of their fields. *)
Theorem batchify_arity_mismatch :
  (forall first rest x,
     In x (first :: rest) -> length x <> length first ->
     exists j, SanityCheck (first :: rest) = Err (ArityMismatch j) /\
               1 <= j < length (first :: rest) /\
               length (nth j (first :: rest) []) <> length first /\
               forall body, Batchify body (first :: rest) = Err (ArityMismatch j)) /\
  (forall inputs inputs',
     map (@length NDArray) inputs = map (@length NDArray) inputs' ->
     SanityCheck inputs = SanityCheck inputs').
Proof.
  split.
  - intros first rest x Hin Hne.
    destruct Hin as [<-|Hin]; [contradiction|].
    destruct (check_sizes_mismatch (length first) 1 rest x Hin Hne)
      as (j & Hj & Hb & Hn).
    exists j. simpl. rewrite Hj.
    split; [reflexivity|]. split; [lia|].
    destruct j as [|j]; [lia|]. simpl in Hn |- *.
    rewrite Nat.sub_0_r in Hn. split; [exact Hn|].
    intros body. unfold Batchify. simpl. rewrite Hj. reflexivity.
  - intros [|a inputs] [|b inputs'] H; simpl in H; try discriminate;
      [reflexivity|].
    injection H as Hab Hr. simpl. rewrite Hab.
    apply check_sizes_counts_only, Hr.
Qed.

Lemma batchify_arity_mismatch_witness :
  exists j, SanityCheck [[mkNDArray [2] [1;2]%Z]; []] = Err (ArityMismatch j).
Proof.
  destruct (proj1 batchify_arity_mismatch [mkNDArray [2] [1;2]%Z] [[]] []
              ltac:(simpl; auto) ltac:(simpl; lia)) as (j & Hj & _).
  exists j. exact Hj.
Defined.

(** C10: on a batch of exactly one sample [SanityCheck] succeeds with that
    sample's field count, zero fields included. *)
Theorem sanity_check_single x :
  SanityCheck [x] = Ok (length x).
Proof. reflexivity. Qed.

Example sanity_check_single_zero : SanityCheck [[]] = Ok 0.
Proof. reflexivity. Qed.

(** C9: [SetDataName s] appends [s] as the last element of [data_names],
    grows it by exactly one and keeps the earlier names in order. *)
Theorem set_data_name_appends {St} (s : string) (o : iter_obj St) :
  data_names (SetDataName s o) = data_names o ++ [s] /\
  length (data_names (SetDataName s o)) = S (length (data_names o)) /\
  (forall k, k < length (data_names o) ->
     nth_error (data_names (SetDataName s o)) k = nth_error (data_names o) k) /\
  nth_error (data_names (SetDataName s o)) (length (data_names o)) = Some s /\
  impl (SetDataName s o) = impl o.
Proof.
  simpl. split; [reflexivity|]. split.
  { rewrite length_app. simpl. lia. }
  split; [|split; [|reflexivity]].
  - intros k Hk. rewrite nth_error_app1 by exact Hk. reflexivity.
  - rewrite nth_error_app2 by lia. rewrite Nat.sub_diag. reflexivity.
Qed.

(** C8: [GetLenHint] returns a signed integer; an iterator that keeps the
    default body answers [-1], a negative value meaning "unknown". *)
Theorem len_hint_default {S DType} (it : IIterator S DType) (o : iter_obj S) :
  len_hint_override it = None -> GetLenHint it o = (-1)%Z /\ (GetLenHint it o < 0)%Z.
Proof. intros H. unfold GetLenHint. rewrite H. split; [reflexivity | lia]. Qed.

Lemma len_hint_default_witness :
  GetLenHint counter_iter (mkIterObj [] 0) = (-1)%Z.
Proof. exact (proj1 (len_hint_default counter_iter (mkIterObj [] 0) eq_refl)). Defined.

(** C4: once [next] has answered [false] the iterator is [Exhausted], and
    every further sequence of [next] calls answers [false] and stays there;
    it does not rewind by itself, only [before_first] restarts the epoch. *)
Theorem stream_exhausted_sticky pull p p' :
  Streaming.next pull p = Ok (p', false) ->
  p' = Streaming.Exhausted /\
  (forall n, Streaming.next_n pull n p' = Ok (repeat false n, Streaming.Exhausted)) /\
  Streaming.before_first p' = Ok (Streaming.Ready 0 None).
Proof.
  intros H.
  assert (Hp : p' = Streaming.Exhausted).
  { destruct p as [|pos cur|]; simpl in H; try discriminate.
    - destruct (pull pos); congruence.
    - congruence. }
  subst p'. split; [reflexivity|]. split; [|reflexivity].
  induction n as [|n IH]; [reflexivity|].
  simpl. rewrite IH. reflexivity.
Qed.

Lemma stream_exhausted_sticky_witness :
  Streaming.next_n three_batches 2 Streaming.Exhausted = Ok ([false; false], Streaming.Exhausted).
Proof.
  exact (proj1 (proj2 (stream_exhausted_sticky three_batches
                        (Streaming.Ready 3 None) Streaming.Exhausted eq_refl)) 2).
Defined.

(** ** The prefetching wrapper *)

Section PrefetchFacts.
Import Prefetch.

Local Ltac proj := cbn [source inner queue ended err stopped cons obs] in *.

Lemma got_app o o' : got (o ++ o') = got o ++ got o'.
Proof. unfold got. apply flat_map_app. Qed.


Lemma epoch_of_snoc o e :
  epoch_of (o ++ [e]) =
  match e with Restarted => [] | _ => epoch_of o ++ [e] end.
Proof. unfold epoch_of. rewrite fold_left_app. reflexivity. Qed.

Lemma replay_snoc bs o e :
  replay bs (ops_of (o ++ [e])) =
  direct_step bs (replay bs (ops_of o))
    (match e with Restarted => Reset | _ => Pull end).
Proof. unfold replay, ops_of. rewrite map_app, fold_left_app. reflexivity. Qed.

Lemma last_opt_snoc l b : last_opt (l ++ [b]) = Some b.
Proof. unfold last_opt. rewrite rev_app_distr. reflexivity. Qed.

Lemma measure_decreases depth s s' :
  cons s = Running -> step depth s s' -> measure s' < measure s.
Proof.
  destruct s as [src inn q en er stp cs ob]; simpl; intros -> [H|H].
  - unfold producer_step in H; simpl in H. destruct stp; [discriminate|].
    destruct inn as [|[b|m] r].
    + injection H as <-. unfold measure; simpl. destruct er; lia.
    + destruct (length q <? depth); [|discriminate]. injection H as <-.
      unfold measure; simpl. rewrite length_app. simpl. destruct er; lia.
    + injection H as <-. unfold measure; simpl. destruct er; lia.
  - unfold consumer_step in H; simpl in H. destruct er as [m|].
    + injection H as <-. unfold measure; simpl. destruct stp; lia.
    + destruct q as [|b q].
      * destruct en; [|discriminate]. injection H as <-.
        unfold measure; simpl. destruct stp; lia.
      * injection H as <-. unfold measure; simpl. destruct stp; lia.
Qed.

Lemma inv_ok_init bs : inv_ok bs (init (map IBatch bs)).
Proof.
  split; [reflexivity|]. split; [reflexivity|].
  exists bs. simpl. repeat split; try reflexivity; intros; discriminate.
Qed.

Lemma inv_ok_move bs depth s s' :
  inv_ok bs s -> move depth s s' -> inv_ok bs s'.
Proof.
  destruct s as [src inn q en er stp cs ob].
  intros (Hsrc & Hrep & rest & Hinn & Hbs & Her & Hstp & Hend & Hex) [[H|H]|H];
    simpl in *; subst src inn er stp.
  - (* producer *)
    unfold producer_step in H; simpl in H. destruct en; [discriminate|].
    destruct rest as [|b rest]; simpl in H.
    + injection H as <-. split; [reflexivity|]. split; [exact Hrep|].
      exists []. simpl.
      destruct cs; [|destruct (Hex eq_refl); discriminate].
      repeat split; auto; intros; discriminate.
    + destruct (length q <? depth); [|discriminate]. injection H as <-.
      split; [reflexivity|]. split; [exact Hrep|].
      exists rest. simpl.
      destruct cs; [|destruct (Hex eq_refl); discriminate].
      repeat split; auto; try (intros; discriminate).
      rewrite <- Hbs, <- app_assoc. reflexivity.
  - (* consumer *)
    unfold consumer_step in H; simpl in H. destruct cs.
    + destruct q as [|b q].
      * destruct en; [|discriminate]. injection H as <-.
        pose proof (Hend eq_refl) as Hr. subst rest. rewrite !app_nil_r in Hbs.
        split; [reflexivity|]. split; proj.
        { rewrite replay_snoc, Hrep. unfold phase_of; simpl.
          rewrite <- Hbs. rewrite (proj2 (nth_error_None _ _)) by lia.
          reflexivity. }
        exists []. simpl. rewrite epoch_of_snoc, got_app. simpl.
        rewrite !app_nil_r. repeat split; auto.
      * injection H as <-. split; [reflexivity|]. split; proj.
        { rewrite replay_snoc, Hrep. unfold phase_of; simpl.
          assert (Hn : nth_error bs (length (got (epoch_of ob))) = Some b).
          { rewrite <- Hbs. rewrite nth_error_app2 by lia.
            rewrite Nat.sub_diag. reflexivity. }
          rewrite Hn. simpl. rewrite epoch_of_snoc, got_app.
          change (got [Got b]) with [b]. rewrite length_app, last_opt_snoc. simpl. rewrite Nat.add_1_r. reflexivity. }
        exists rest. simpl. rewrite epoch_of_snoc, got_app. simpl.
        repeat split; auto; try (intros; discriminate).
        rewrite <- Hbs, <- app_assoc. reflexivity.
    + injection H as <-. split; [reflexivity|]. split; proj.
      { rewrite replay_snoc, Hrep. reflexivity. }
      exists rest. simpl. rewrite epoch_of_snoc, got_app. simpl.
      rewrite app_nil_r. destruct (Hex eq_refl). repeat split; auto.
  - (* before_first *)
    subst s'. split; [reflexivity|]. split; unfold before_first; proj.
    { rewrite replay_snoc, Hrep. unfold before_first, phase_of; simpl.
      rewrite epoch_of_snoc. destruct cs; reflexivity. }
    exists bs. simpl. rewrite epoch_of_snoc. simpl.
    repeat split; try reflexivity; intros; discriminate.
Qed.

Lemma inv_ok_moves bs depth s s' :
  inv_ok bs s -> star (move depth) s s' -> inv_ok bs s'.
Proof.
  intros Hi Hs. induction Hs as [s|s1 s2 s3 H12 H23 IH]; auto.
  apply IH. apply (inv_ok_move bs depth s1 s2 Hi H12).
Qed.

(** With a queue of capacity zero the queue stays empty and the consumer
    never obtains a batch. *)
Lemma depth_zero_nothing items s :
  star (move 0) (init items) s -> queue s = [] /\ got (obs s) = [].
Proof.
  intros Hs.
  assert (G : forall s1 s2, star (move 0) s1 s2 ->
            queue s1 = [] /\ got (obs s1) = [] -> queue s2 = [] /\ got (obs s2) = []).
  { clear. intros s1 s2 H. induction H as [s|s1 s2 s3 H12 H23 IH]; auto.
    intros Hi. apply IH. clear IH H23.
    destruct s1 as [src inn q en er stp cs ob]; simpl in *.
    destruct Hi as [-> Hg].
    destruct H12 as [[H|H]| ->].
    - unfold producer_step in H; simpl in H. destruct stp; [discriminate|].
      destruct inn as [|[b|m] r]; [injection H as <-; auto| |injection H as <-; auto].
      discriminate.
    - unfold consumer_step in H; simpl in H.
      destruct cs; [destruct er; [|destruct en]|];
        try discriminate; injection H as <-; simpl;
        rewrite got_app, Hg; auto.
    - simpl. rewrite got_app, Hg. auto. }
  apply (G _ _ Hs). auto.
Qed.

Lemma in_got o b : In (Got b) o -> In b (got o).
Proof.
  induction o as [|e o IH]; simpl; [auto|].
  intros [->|H]; [left; reflexivity|].
  destruct e; simpl; auto.
Qed.







(** From a running state the producer or the consumer can move, as long
    as the queue can hold a batch. *)
Lemma progress_running depth s :
  0 < depth -> cons s = Running ->
  (err s = None -> stopped s = ended s) ->
  exists s', step depth s s'.
Proof.
  destruct s as [src inn q en er stp cs ob]; proj. intros Hd -> Hse.
  destruct er as [m|].
  - exists (mkSt src inn [] en None stp CExhausted (ob ++ [Raised m])).
    right. reflexivity.
  - destruct q as [|b q].
    + destruct en.
      * eexists. right. reflexivity.
      * rewrite (Hse eq_refl). unfold step, producer_step; proj.
        destruct inn as [|[b|m] r].
        -- eexists. left. reflexivity.
        -- assert (Hl : (length (@nil DataBatch) <? depth) = true)
             by (apply Nat.ltb_lt; simpl; lia).
           rewrite Hl. eexists. left. reflexivity.
        -- eexists. left. reflexivity.
    + eexists. right. reflexivity.
Qed.

Lemma star_step_move depth s s' :
  star (step depth) s s' -> star (move depth) s s'.
Proof.
  induction 1 as [s|s1 s2 s3 H12 H23 IH];
    [apply star_refl | eapply star_cons; [left; exact H12 | exact IH]].
Qed.

(** With a queue of capacity at least one, and from any state of an
    invariant closed under steps, the wrapper can be driven to its end of
    epoch. *)
Lemma drain depth (P : st -> Prop) :
  0 < depth ->
  (forall s s', P s -> step depth s s' -> P s') ->
  (forall s, P s -> cons s = Running -> err s = None -> stopped s = ended s) ->
  forall s, P s ->
  exists s', star (step depth) s s' /\ P s' /\ cons s' = CExhausted.
Proof.
  intros Hd Hstep Hse.
  assert (G : forall n s, measure s < n -> P s ->
            exists s', star (step depth) s s' /\ P s' /\ cons s' = CExhausted).
  { induction n as [|n IH]; intros s Hm Hp; [lia|].
    destruct (cons s) eqn:Hc.
    - destruct (progress_running depth s Hd Hc (Hse s Hp Hc)) as [s1 H1].
      pose proof (measure_decreases depth s s1 Hc H1).
      destruct (IH s1 ltac:(lia) (Hstep s s1 Hp H1)) as (s2 & H12 & ?).
      exists s2. split; [eapply star_cons; eauto | assumption].
    - exists s. split; [apply star_refl | auto]. }
  intros s Hp. apply (G (S (measure s)) s); auto.
Qed.

End PrefetchFacts.

Import Prefetch.

(** C5 (counterexample).  With a lookahead depth of zero the queue can
    never hold a batch: from the start neither side can move, and no
    interleaving of the consumer's calls ever delivers [b0]. *)
Lemma prefetch_depth_zero_stalls :
  (forall s', ~ step 0 (init (map IBatch [b0])) s') /\
  ~ (exists s, star (move 0) (init (map IBatch [b0])) s /\ In (Got b0) (obs s)).
Proof.
  split.
  - intros s' [H|H]; discriminate.
  - intros (s & Hs & Hin). apply in_got in Hin.
    destruct (depth_zero_nothing _ s Hs) as [_ Hg]. rewrite Hg in Hin.
    destruct Hin.
Qed.

(** C5 (amended).  Over an inner iterator answering the batches [bs] and
    then ending, and with a lookahead depth of at least one: at every
    state reachable by any interleaving of producer steps, consumer pulls
    and [before_first] calls, the consumer's observations are exactly those
    the same calls made directly on the inner iterator give; the batches
    of the current epoch are a prefix of [bs], and all of [bs] once the
    epoch has ended; every step from a running state lowers the measure of
    the work left; and the epoch can always be driven to its end, the
    consumer then having received exactly [bs], in order. *)
Theorem prefetch_equivalent depth bs s :
  0 < depth ->
  star (move depth) (init (map IBatch bs)) s ->
  obs s = fst (replay bs (ops_of (obs s))) /\
  (exists rest, got (epoch_of (obs s)) ++ rest = bs) /\
  (cons s = CExhausted -> got (epoch_of (obs s)) = bs) /\
  (forall s', step depth s s' -> cons s = Running -> measure s' < measure s) /\
  (exists s', star (step depth) s s' /\ cons s' = CExhausted /\
     got (epoch_of (obs s')) = bs /\ obs s' = fst (replay bs (ops_of (obs s')))).
Proof.
  intros Hd Hs.
  assert (Inv : forall s, inv_ok bs s ->
    obs s = fst (replay bs (ops_of (obs s))) /\
    (exists rest, got (epoch_of (obs s)) ++ rest = bs) /\
    (cons s = CExhausted -> got (epoch_of (obs s)) = bs)).
  { intros s0 (_ & Hrep & rest & _ & Hbs & _ & _ & Hend & Hex).
    split; [rewrite Hrep; reflexivity|]. split.
    - exists (queue s0 ++ rest). exact Hbs.
    - intros Hc. destruct (Hex Hc) as [He Hq].
      rewrite (Hend He), Hq in Hbs. rewrite !app_nil_r in Hbs. exact Hbs. }
  pose proof (inv_ok_moves bs depth _ s (inv_ok_init bs) Hs) as Hi.
  destruct (Inv s Hi) as (H1 & H2 & H3).
  split; [exact H1|]. split; [exact H2|]. split; [exact H3|]. split.
  - intros s' Hst Hc. exact (measure_decreases depth s s' Hc Hst).
  - destruct (drain depth (inv_ok bs) Hd) with (s := s) as (s' & Hss & Hi' & Hc);
      auto.
    + intros s1 s2 H12 Hst. apply (inv_ok_move bs depth s1 s2 H12). left; exact Hst.
    + intros s1 (_ & _ & rest & _ & _ & _ & Hse & _) _ _. exact Hse.
    + destruct (Inv s' Hi') as (G1 & _ & G3). exists s'. auto.
Qed.

Lemma prefetch_equivalent_witness :
  0 < 1 /\
  star (move 1) (init (map IBatch [b0; b1; b2])) (init (map IBatch [b0; b1; b2])) /\
  (let s := init (map IBatch [b0; b1; b2]) in
   obs s = fst (replay [b0; b1; b2] (ops_of (obs s))) /\
   (exists rest, got (epoch_of (obs s)) ++ rest = [b0; b1; b2]) /\
   (cons s = CExhausted -> got (epoch_of (obs s)) = [b0; b1; b2]) /\
   (forall s', step 1 s s' -> cons s = Running -> measure s' < measure s) /\
   (exists s', star (step 1) s s' /\ cons s' = CExhausted /\
      got (epoch_of (obs s')) = [b0; b1; b2] /\
      obs s' = fst (replay [b0; b1; b2] (ops_of (obs s'))))).
Proof.
  split; [lia|]. split; [apply star_refl|].
  apply (prefetch_equivalent 1 [b0; b1; b2]); [lia | apply star_refl].
Defined.

(** The scenario of the spec: [b0, b1, b2] at depths 1, 4 and 100,
    consumer-first and producer-first. *)
Example prefetch_order_runs :
  Forall (fun d => got (obs (run false d 40 (init (map IBatch [b0; b1; b2]))))
                   = [b0; b1; b2] /\
                   got (obs (run true d 40 (init (map IBatch [b0; b1; b2]))))
                   = [b0; b1; b2]) [1; 4; 100].
Proof. repeat constructor. Qed.




(** An error after one batch: producer-first, the error is captured before
    the consumer pulls and the queued [b0] is dropped; consumer-first, [b0]
    is delivered first.  Either way the error is raised once and the
    wrapper then answers end-of-epoch. *)
Example prefetch_error_runs :
  firstn 3 (obs (run true 4 10 (init [IBatch b0; IError "bad record"; IBatch b1])))
    = [Raised "bad record"; Done; Done]%string /\
  firstn 3 (obs (run false 4 10 (init [IBatch b0; IError "bad record"; IBatch b1])))
    = [Got b0; Raised "bad record"; Done]%string.
Proof. split; reflexivity. Qed.


(** ** Datasets *)

Example pairs_get_ok :
  DatasetModel.GetItem DatasetModel.pairs 2 1 =
  Ok (mkNDArray [] [2%Z; 1%Z], true).
Proof. reflexivity. Qed.

(** C7, as stated, fails: for a dataset with no fields, [get(len(), 0)]
    must fail with [IndexOutOfRange] by the second part of the claim and
    with [FieldOutOfRange] by the third, since [0] is outside [[0, 0)].
    The model answers [FieldOutOfRange]. *)
Lemma dataset_get_contract_fails :
  ~ DatasetModel.get_contract DatasetModel.no_fields.
Proof.
  intros (_ & H & _). vm_compute in H. discriminate.
Qed.

(** C7, amended: for every dataset, [get(i, f)] succeeds for every [i] in
    [[0, len())] and [f] in [[0, field_count())]; every [f] outside
    [[0, field_count())] fails with [FieldOutOfRange]; every [i >= len()]
    with [f] in range fails with [IndexOutOfRange], in particular
    [get(len(), 0)] does whenever [field_count() >= 1]. *)
Theorem dataset_get_in_range (ds : DatasetModel.Dataset) :
  (forall i f, (i < DatasetModel.GetLen ds)%N ->
     (0 <= f < DatasetModel.GetOutputSize ds)%Z ->
     DatasetModel.GetItem ds i f = Ok (DatasetModel.lookup ds i f)) /\
  (forall i f, ~ (0 <= f < DatasetModel.GetOutputSize ds)%Z ->
     DatasetModel.GetItem ds i f = Err FieldOutOfRange) /\
  (forall i f, (DatasetModel.GetLen ds <= i)%N ->
     (0 <= f < DatasetModel.GetOutputSize ds)%Z ->
     DatasetModel.GetItem ds i f = Err IndexOutOfRange) /\
  ((1 <= DatasetModel.GetOutputSize ds)%Z ->
     DatasetModel.GetItem ds (DatasetModel.GetLen ds) 0 = Err IndexOutOfRange).
Proof.
  unfold DatasetModel.GetItem.
  assert (Hf : forall f, (0 <= f < DatasetModel.GetOutputSize ds)%Z ->
            negb ((0 <=? f)%Z && (f <? DatasetModel.GetOutputSize ds)%Z) = false).
  { intros f Hf. apply negb_false_iff, andb_true_iff.
    split; [apply Z.leb_le | apply Z.ltb_lt]; lia. }
  split; [|split; [|split]].
  - intros i f Hi Hfr. rewrite (Hf f Hfr).
    apply N.ltb_lt in Hi. rewrite Hi. reflexivity.
  - intros i f Hfr.
    destruct ((0 <=? f)%Z && (f <? DatasetModel.GetOutputSize ds)%Z) eqn:E;
      [|reflexivity].
    apply andb_true_iff in E as [E1 E2].
    apply Z.leb_le in E1. apply Z.ltb_lt in E2. lia.
  - intros i f Hi Hfr. rewrite (Hf f Hfr).
    destruct (i <? DatasetModel.GetLen ds)%N eqn:E; [|reflexivity].
    apply N.ltb_lt in E. lia.
  - intros H1. rewrite (Hf 0%Z ltac:(lia)).
    rewrite N.ltb_irrefl. reflexivity.
Qed.

Lemma dataset_get_in_range_witness :
  DatasetModel.GetItem DatasetModel.pairs 3 0 = Err IndexOutOfRange.
Proof.
  exact (proj2 (proj2 (proj2 (dataset_get_in_range DatasetModel.pairs)))
           ltac:(simpl; lia)).
Defined.

(** ** Batches *)

(** C3, as stated, fails: an [IIterator<DataBatch>] may hand out a batch
    that breaks every part of the invariant. *)
Lemma databatch_invariant_fails :
  ~ (forall (it : IIterator nat DataBatch) (s : nat), batch_ok (Value it s)).
Proof.
  intros H. destruct (H (const_iter odd_batch) 0) as (Hf & Hpos & _).
  simpl in Hpos. lia.
Qed.

(** C3, amended: the code does not enforce the invariant; any [DataBatch]
    value, one with a negative padding count or a leading dimension that
    differs from the number of indices included, can be handed to the
    consumer by an [IIterator<DataBatch>] after a successful [Next]. *)
Theorem databatch_invariant_not_enforced :
  (forall b : DataBatch, exists (it : IIterator nat DataBatch) (s s' : nat),
     Next it s = (s', true) /\ Value it s' = b) /\
  ~ batch_ok odd_batch.
Proof.
  split.
  - intros b. exists (const_iter b), 0, 1. split; reflexivity.
  - intros (_ & Hpos & _). simpl in Hpos. lia.
Qed.

(** ** Further properties of SanityCheck and SetDataName *)

Lemma check_sizes_ok_iff n i rest m :
  check_sizes n i rest = Ok m <-> m = n /\ Forall (fun x => length x = n) rest.
Proof.
  revert i; induction rest as [|y rest IH]; intros i; simpl.
  - split; [intros H; injection H as <-; auto | intros [-> _]; reflexivity].
  - destruct (length y =? n) eqn:E.
    + apply Nat.eqb_eq in E. rewrite IH. split.
      * intros [-> H]. auto.
      * intros [-> H]. inversion H; auto.
    + apply Nat.eqb_neq in E. split; [discriminate|].
      intros [_ H]. inversion H; contradiction.
Qed.

Lemma check_sizes_err n i rest e :
  check_sizes n i rest = Err e ->
  exists j, e = ArityMismatch j /\ i <= j < i + length rest /\
            length (nth (j - i) rest []) <> n /\
            forall k, i <= k < j -> length (nth (k - i) rest []) = n.
Proof.
  revert i; induction rest as [|y rest IH]; intros i H; simpl in H;
    [discriminate|].
  destruct (length y =? n) eqn:E.
  - apply Nat.eqb_eq in E. destruct (IH (S i) H) as (j & -> & Hb & Hn & Hk).
    exists j. split; [reflexivity|]. simpl. split; [lia|].
    replace (j - i) with (S (j - S i)) by lia. split; [exact Hn|].
    intros k Hki. destruct (Nat.eq_dec k i) as [->|Hne].
    + rewrite Nat.sub_diag. exact E.
    + replace (k - i) with (S (k - S i)) by lia. apply Hk. lia.
  - apply Nat.eqb_neq in E. injection H as <-. exists i.
    split; [reflexivity|]. simpl. split; [lia|].
    rewrite Nat.sub_diag. split; [exact E|]. intros k Hk. lia.
Qed.

Lemma check_sizes_snoc n i rest x :
  check_sizes n i (rest ++ [x]) =
  (m <- check_sizes n i rest ;;
   if length x =? n then Ok m else Err (ArityMismatch (i + length rest))).
Proof.
  revert i; induction rest as [|y rest IH]; intros i; simpl.
  - rewrite Nat.add_0_r. destruct (length x =? n); reflexivity.
  - destruct (length y =? n); [|reflexivity].
    rewrite IH, Nat.add_succ_r. reflexivity.
Qed.

(** [SanityCheck] succeeds exactly on a non-empty batch whose samples all
    have the field count of the first one, and returns that count. *)
Theorem sanity_check_ok_iff inputs n :
  SanityCheck inputs = Ok n <->
  exists first rest, inputs = first :: rest /\ n = length first /\
                     Forall (fun x => length x = n) inputs.
Proof.
  destruct inputs as [|first rest]; simpl.
  - split; [discriminate|]. intros (f & r & H & _). discriminate.
  - rewrite check_sizes_ok_iff. split.
    + intros [-> H]. exists first, rest. split; [reflexivity|].
      split; [reflexivity|]. constructor; auto.
    + intros (f & r & Heq & -> & H). injection Heq as <- <-.
      inversion H; auto.
Qed.

(** When [SanityCheck] fails, either the batch is empty and the error is
    [EmptyBatch], or the error is [ArityMismatch j] where [j] is the first
    position, counting from [1], whose sample's field count differs from
    the first sample's. *)
Theorem sanity_check_err_first_mismatch inputs e :
  SanityCheck inputs = Err e ->
  (inputs = [] /\ e = EmptyBatch) \/
  (exists j, e = ArityMismatch j /\ 1 <= j < length inputs /\
     length (nth j inputs []) <> length (hd [] inputs) /\
     forall k, k < j -> length (nth k inputs []) = length (hd [] inputs)).
Proof.
  destruct inputs as [|first rest]; simpl.
  - intros H. injection H as <-. left. auto.
  - intros H. right.
    destruct (check_sizes_err _ _ _ _ H) as (j & -> & Hb & Hn & Hk).
    exists j. split; [reflexivity|]. split; [lia|].
    destruct j as [|j]; [lia|]. simpl.
    replace (S j - 1) with j in Hn by lia. split; [exact Hn|].
    intros [|k] Hkj; [reflexivity|]. simpl.
    specialize (Hk (S k) ltac:(lia)).
    replace (S k - 1) with k in Hk by lia. exact Hk.
Qed.

Lemma sanity_check_err_first_mismatch_witness :
  SanityCheck [[mkNDArray [] []]; [mkNDArray [] []]; []; []] = Err (ArityMismatch 2) /\
  length (nth 1 [[mkNDArray [] []]; [mkNDArray [] []]; []; []] []) = 1.
Proof.
  assert (H : SanityCheck [[mkNDArray [] []]; [mkNDArray [] []]; []; []] =
              Err (ArityMismatch 2)) by reflexivity.
  split; [exact H|].
  destruct (sanity_check_err_first_mismatch _ _ H) as [[Hn _]|(j & Hj & _ & _ & Hk)];
    [discriminate|].
  injection Hj as <-. exact (Hk 1 ltac:(lia)).
Defined.

(** Appending a sample to a batch adds exactly one check: the result on
    the longer batch is the result on the shorter one, unless that
    succeeded with a count the new sample does not have, in which case
    the new sample's position is reported. *)
Theorem sanity_check_snoc first rest x :
  SanityCheck ((first :: rest) ++ [x]) =
  (n <- SanityCheck (first :: rest) ;;
   if length x =? n then Ok n else Err (ArityMismatch (S (length rest)))).
Proof.
  simpl. rewrite check_sizes_snoc.
  destruct (check_sizes (length first) 1 rest) as [m|e] eqn:E; [|reflexivity].
  apply check_sizes_ok_iff in E as [-> _]. reflexivity.
Qed.

(** Calling [SetDataName] for each name of a list, in order, appends the
    whole list to [data_names] and leaves the iterator's own state as it
    was. *)
Theorem set_data_names_fold {St} names (o : iter_obj St) :
  fold_left (fun o s => SetDataName s o) names o =
    mkIterObj (data_names o ++ names) (impl o).
Proof.
  revert o; induction names as [|s names IH]; intros o; simpl.
  - rewrite app_nil_r. destruct o; reflexivity.
  - rewrite IH. simpl. rewrite <- app_assoc. reflexivity.
Qed.
